(** * GeoGuesser clone: round controller and scorer of [app.js]

    A shallow embedding of the script's game logic.

    - The module-level [let] variables and the page elements the handlers
      write to form one record, [State]; every handler is a function on it.
    - A handler that can raise a [TypeError] returns a [Completion], which
      carries the state as it was mutated up to the throw.
    - [Math.random] is an oracle: the k-th call made by one [shuffle] is
      [rnd k], a real number in [0, 1).
    - A JavaScript Number is read in two ways.  In [State] and its handlers
      a coordinate or a distance is a real number ([R]) and a Number that is
      integral by construction (round number, array index, score) is an
      integer ([Z]): this reading serves the control flow of the game, which
      does not depend on the digits of a distance.  What the scorer computes
      is settled in the arithmetic of the program, IEEE 754 binary64, in
      [Binary64]: there the two readings part, on ties of [Math.round], on
      underflow, and on [NaN].
    - The page is a transition system.  [Event] and [step] take a click on
      the start button together with the outcome of its [fetch], as one
      step; [PageEvent] and [pageStep] split it where [startGame] awaits,
      so that starts can overlap as they can in the browser.  A disabled
      button receives no click. *)

From Stdlib Require Import Floats.
From Stdlib Require Import Reals Lra Lia ZArith String.
From stdpp Require Import base list.

Local Open Scope R_scope.

(** ** The parts of [Math] the script uses, over the reals *)

Module Math.

(** [Math.floor]. *)
Definition floor (x : R) : Z := Zfloor x.

(** [Math.round]: the nearest integer, a tie going to the larger one. *)
Definition round (x : R) : Z := Zfloor (x + / 2).

(** [Math.max] and [Math.min] of two arguments. *)
Definition max (x y : R) : R := if Rlt_dec x y then y else x.
Definition min (x y : R) : R := if Rlt_dec y x then y else x.

(** [Math.atan2(y, x)]: the angle of the point (x, y), in (-PI, PI]. *)
Definition atan2 (y x : R) : R :=
  if Rlt_dec 0 x then atan (y / x)
  else if Rlt_dec x 0 then
    (if Rle_dec 0 y then atan (y / x) + PI else atan (y / x) - PI)
  else if Rlt_dec 0 y then PI / 2
  else if Rlt_dec y 0 then - (PI / 2)
  else 0.

End Math.

(** ** Scorer *)

(** [const toRad = v => v * Math.PI / 180] *)
Definition toRad (v : R) : R := v * PI / 180.

(** The quantity [a] of [haversine]. *)
Definition haversine_a (lat1 lon1 lat2 lon2 : R) : R :=
  let dLat := toRad (lat2 - lat1) in
  let dLon := toRad (lon2 - lon1) in
  sin (dLat / 2) * sin (dLat / 2)
  + cos (toRad lat1) * cos (toRad lat2) * sin (dLon / 2) * sin (dLon / 2).

(** [function haversine(lat1, lon1, lat2, lon2)] in exact arithmetic;
    [Binary64.haversine] is the function on Numbers. *)
Definition haversine (lat1 lon1 lat2 lon2 : R) : R :=
  let R_ := 6371 in
  let a := haversine_a lat1 lon1 lat2 lon2 in
  let c := 2 * Math.atan2 (sqrt a) (sqrt (1 - a)) in
  R_ * c.

(** [function computeScore(distanceKm)] in exact arithmetic.  The result is
    integral: in the first branch [max] is returned as the integer 5000.
    [Binary64.computeScore] is the function on Numbers. *)
Definition computeScore (distanceKm : R) : Z :=
  let max := 5000 in
  let maxDist := 20000 in
  if Rle_dec distanceKm 1 then 5000%Z
  else Math.round (Math.max 0 (max * (1 - Math.min (distanceKm / maxDist) 1))).


(** ** The scorer in the arithmetic of the program

    A JavaScript Number is an IEEE 754 binary64 value: Rocq's primitive
    [float], whose operations round to nearest, ties to even, as the
    engine's do.  [Math.round], [Math.max], [Math.min] and [Math.sqrt] are
    fixed by ECMAScript and are defined here.  [Math.sin], [Math.cos] and
    [Math.atan2] are "implementation-approximated": an [Engine] gives them,
    and what a theorem needs of them is said by a law. *)

Module Binary64.

Local Open Scope float_scope.

Module Math.

(** [Math.PI], the binary64 value nearest to the number. *)
Definition PI : float := 0x1.921fb54442d18p+1.

(** [Math.sqrt]: the square root, correctly rounded. *)
Definition sqrt (x : float) : float := PrimFloat.sqrt x.

(** The Number for the integer [n], for [n] below [2^53] in size. *)
Definition of_Z (n : Z) : float :=
  if (n <? 0)%Z then - of_uint63 (Uint63.of_Z (- n))
  else of_uint63 (Uint63.of_Z n).

(** [Math.round]: a Number that is not finite, is a zero or is integral is
    returned as it is; otherwise the result is [floor(x + 1/2)] computed
    exactly, from the mantissa and the exponent of [x], and the zero it gives
    for [x] in [-0.5, 0) is [-0]. *)
Definition round (x : float) : float :=
  match Prim2SF x with
  | S754_finite s m e =>
      if (0 <=? e)%Z then x
      else
        let n := ((2 * (if s then Z.neg m else Z.pos m) + 2 ^ (- e))
                  / 2 ^ (1 - e))%Z in
        if (n =? 0)%Z then (if s then neg_zero else zero) else of_Z n
  | _ => x
  end.

(** [Math.max] and [Math.min] of two arguments: [NaN] if either is, and
    [+0] counts as larger than [-0]. *)
Definition max (x y : float) : float :=
  if (is_nan x || is_nan y)%bool then nan
  else if x <? y then y
  else if y <? x then x
  else if get_sign x then y else x.

Definition min (x y : float) : float :=
  if (is_nan x || is_nan y)%bool then nan
  else if x <? y then x
  else if y <? x then y
  else if get_sign x then x else y.

End Math.

(** The three functions of [Math] that the engine approximates. *)
Record Engine := mkEngine {
  sin : float -> float;
  cos : float -> float;
  atan2 : float -> float -> float
}.

(** What ECMAScript fixes of them, as far as the scorer meets it:
    [Math.sin(+0)] is [+0], [Math.cos(+0)] is 1, [Math.atan2(+0, 1)] is [+0],
    and [Math.atan2] of a [NaN] is [NaN]. *)
Record conforms (M : Engine) : Prop := mkConforms {
  sin_zero : sin M 0 = 0;
  cos_zero : cos M 0 = 1;
  atan2_zero_one : atan2 M 0 1 = 0;
  atan2_nan : forall y, atan2 M y nan = nan
}.


(** [const toRad = v => v * Math.PI / 180] *)
Definition toRad (v : float) : float := v * Math.PI / 180.

(** The quantity [a] of [haversine]. *)
Definition haversine_a (M : Engine) (lat1 lon1 lat2 lon2 : float) : float :=
  let dLat := toRad (lat2 - lat1) in
  let dLon := toRad (lon2 - lon1) in
  sin M (dLat / 2) * sin M (dLat / 2)
  + cos M (toRad lat1) * cos M (toRad lat2) * sin M (dLon / 2)
    * sin M (dLon / 2).

(** [function haversine(lat1, lon1, lat2, lon2)] *)
Definition haversine (M : Engine) (lat1 lon1 lat2 lon2 : float) : float :=
  let R_ := 6371 in
  let a := haversine_a M lat1 lon1 lat2 lon2 in
  let c := 2 * atan2 M (Math.sqrt a) (Math.sqrt (1 - a)) in
  R_ * c.

(** [function computeScore(distanceKm)] *)
Definition computeScore (distanceKm : float) : float :=
  let max := 5000 in
  let maxDist := 20000 in
  if distanceKm <=? 1 then max
  else Math.round (Math.max 0 (max * (1 - Math.min (distanceKm / maxDist) 1))).


(** A guess and an answer that are nearly opposite on the globe: the guess
    at latitude 0.08 and longitude 0, the image at latitude -0.08 and
    longitude 180. *)
Definition guessLat : float := 0x1.47ae147ae147bp-4.
Definition guessLng : float := 0.
Definition actualLat : float := - 0x1.47ae147ae147bp-4.
Definition actualLng : float := 180.

(** The four calls of [Math.sin] and [Math.cos] that [haversine] makes on
    them return the Numbers nearest to the exact sines and cosines. *)
Record nearestOnOpposite (M : Engine) : Prop := mkNearestOnOpposite {
  sin_half_dLat : sin M (- 0x1.6e05a695f8191p-10) = - 0x1.6e059ecaa87dcp-10;
  cos_guessLat : cos M 0x1.6e05a695f8191p-10 = 0x1.ffffdf4abdd1ep-1;
  cos_actualLat : cos M (- 0x1.6e05a695f8191p-10) = 0x1.ffffdf4abdd1ep-1;
  sin_half_dLon : sin M 0x1.921fb54442d18p+0 = 1
}.

(** An engine that does so, and is [linearEngine] elsewhere. *)
Definition nearestEngine : Engine :=
  mkEngine
    (fun x =>
       if x =? 0x1.921fb54442d18p+0 then 1
       else if x =? - 0x1.6e05a695f8191p-10 then - 0x1.6e059ecaa87dcp-10
       else x)
    (fun x =>
       if abs x =? 0x1.6e05a695f8191p-10 then 0x1.ffffdf4abdd1ep-1 else 1)
    (fun y x => if is_nan x then nan else y).

End Binary64.

(** ** Shuffle *)

(** One result of [Math.random()]. *)
Record Draw := mkDraw { draw_val :> R; draw_range : 0 <= draw_val < 1 }.

(** JavaScript's [arr[i]] for a Number index: [undefined] is [None]. *)
Definition array_get {A : Type} (arr : list A) (i : Z) : option A :=
  if (i <? 0)%Z then None else arr !! Z.to_nat i.

(** [[arr[i], arr[j]] = [arr[j], arr[i]]].  Both indices are inside the array
    whenever the loop of [shuffle] runs this line (lemma
    [shuffle_index_in_range]); outside, where JavaScript would grow the
    array, the model leaves it as it is. *)
Definition swap {A : Type} (arr : list A) (i j : nat) : list A :=
  match arr !! i, arr !! j with
  | Some x, Some y => <[j := x]> (<[i := y]> arr)
  | _, _ => arr
  end.

(** The index [Math.floor(Math.random()*(i+1))] drawn at loop counter [i]. *)
Definition pick (r : Draw) (i : nat) : nat :=
  Z.to_nat (Math.floor (r * INR (i + 1))).



(** The loop [for (let i = arr.length - 1; i > 0; i--)] from counter [i] on;
    [k] counts the calls to [Math.random] made so far. *)
Fixpoint shuffle_loop {A : Type} (rnd : nat -> Draw) (k i : nat)
    (arr : list A) : list A :=
  match i with
  | O => arr
  | S i' => shuffle_loop rnd (S k) i' (swap arr i (pick (rnd k) i))
  end.

(** [function shuffle(arr)] *)
Definition shuffle {A : Type} (rnd : nat -> Draw) (arr : list A) : list A :=
  shuffle_loop rnd 0 (length arr - 1) arr.

(** ** Data *)

(** Leaflet's [L.latLng]. *)
Module L.
Record LatLng := latLng { lat : R; lng : R }.
End L.

(** An entry of [images.json]. *)
Record Image := mkImage {
  url : string;
  name : string;
  hint : option string;
  lat : R;
  lng : R
}.

(** What the map shows: [setView(center, zoom)] or [fitBounds] of the two
    markers, padded. *)
Inductive View :=
| SetView (centerLat centerLng : R) (zoom : Z)
| FitBounds (guess actual : L.LatLng).

(** The two calls to [alert]. *)
Inductive Alert :=
| NoImagesFound
| GameOver (total : Z).

(** The script's variables, the page elements it writes, and the alerts shown
    so far (latest first).  A text element holds the value it displays;
    [None] and the empty string stand for an empty element. *)
Record State := mkState {
  guessMarker : option L.LatLng;
  actualMarker : option L.LatLng;
  line : option (L.LatLng * L.LatLng);
  images : list Image;
  currentIndex : Z;
  roundsTotal : Z;
  roundNum : Z;
  totalScore : Z;
  hasGuessed : bool;
  mapView : View;
  startBtn_disabled : bool;
  nextBtn_disabled : bool;
  sceneImage_src : string;
  sceneImage_alt : string;
  roundEl : Z;
  scoreEl : Z;
  distanceEl : option R;
  roundScoreEl : option Z;
  hintEl : string;
  locationCreditEl : string;
  alerts : list Alert
}.

(** How a handler ends: normally, or by an uncaught [TypeError]; either way
    the page goes on with the state reached. *)
Inductive Completion :=
| Normal (s : State)
| Throw (s : State).

Definition after (c : Completion) : State :=
  match c with Normal s | Throw s => s end.

Definition is_normal (c : Completion) : bool :=
  match c with Normal _ => true | Throw _ => false end.

(** The state when the script has been loaded.  The page (index.html) is not
    among the sources: whether its two buttons start disabled is left open,
    and its text elements are taken to start empty. *)
Definition initial (startDisabled nextDisabled : bool) : State :=
  {| guessMarker := None; actualMarker := None; line := None;
     images := []; currentIndex := -1; roundsTotal := 5; roundNum := 0;
     totalScore := 0; hasGuessed := false;
     mapView := SetView 20 0 2;
     startBtn_disabled := startDisabled; nextBtn_disabled := nextDisabled;
     sceneImage_src := EmptyString; sceneImage_alt := EmptyString;
     roundEl := 0; scoreEl := 0; distanceEl := None; roundScoreEl := None;
     hintEl := EmptyString; locationCreditEl := EmptyString; alerts := [] |}.

(** ** Handlers *)

(** [function loadDataset()], given what [fetch('images.json')] and
    [res.json()] produced: [Some data], or [None] when either failed. *)
Definition loadDataset (fetched : option (list Image)) (rnd : nat -> Draw)
    (s : State) : State :=
  let images' :=
    match fetched with
    | Some data => shuffle rnd data
    | None => []
    end in
  {| guessMarker := guessMarker s; actualMarker := actualMarker s;
     line := line s;
     images := images';
     currentIndex := currentIndex s; roundsTotal := roundsTotal s;
     roundNum := roundNum s; totalScore := totalScore s;
     hasGuessed := hasGuessed s; mapView := mapView s;
     startBtn_disabled := startBtn_disabled s;
     nextBtn_disabled := nextBtn_disabled s;
     sceneImage_src := sceneImage_src s; sceneImage_alt := sceneImage_alt s;
     roundEl := roundEl s; scoreEl := scoreEl s; distanceEl := distanceEl s;
     roundScoreEl := roundScoreEl s; hintEl := hintEl s;
     locationCreditEl := locationCreditEl s; alerts := alerts s |}.

(** [function showImage(imageObj)] *)
Definition showImage (imageObj : Image) (s : State) : State :=
  {| guessMarker := guessMarker s; actualMarker := actualMarker s;
     line := line s; images := images s;
     currentIndex := currentIndex s; roundsTotal := roundsTotal s;
     roundNum := roundNum s; totalScore := totalScore s;
     hasGuessed := hasGuessed s; mapView := mapView s;
     startBtn_disabled := startBtn_disabled s;
     nextBtn_disabled := nextBtn_disabled s;
     sceneImage_src := url imageObj;
     sceneImage_alt :=
       match name imageObj with
       | EmptyString => "Scene"%string
       | n => n
       end;
     roundEl := roundEl s; scoreEl := scoreEl s; distanceEl := distanceEl s;
     roundScoreEl := roundScoreEl s;
     hintEl := match hint imageObj with Some h => h | None => EmptyString end;
     locationCreditEl := EmptyString; alerts := alerts s |}.

(** [function resetRoundState()] *)
Definition resetRoundState (s : State) : State :=
  {| guessMarker := None; actualMarker := None; line := None;
     images := images s;
     currentIndex := currentIndex s; roundsTotal := roundsTotal s;
     roundNum := roundNum s; totalScore := totalScore s;
     hasGuessed := false;
     mapView := SetView 20 0 2;
     startBtn_disabled := startBtn_disabled s;
     nextBtn_disabled := true;
     sceneImage_src := sceneImage_src s; sceneImage_alt := sceneImage_alt s;
     roundEl := roundEl s; scoreEl := scoreEl s;
     distanceEl := None; roundScoreEl := None;
     hintEl := hintEl s;
     locationCreditEl := locationCreditEl s; alerts := alerts s |}.

(** [function endGame()] *)
Definition endGame (s : State) : State :=
  {| guessMarker := guessMarker s; actualMarker := actualMarker s;
     line := line s; images := images s;
     currentIndex := currentIndex s; roundsTotal := roundsTotal s;
     roundNum := 0;
     totalScore := totalScore s;
     hasGuessed := hasGuessed s; mapView := mapView s;
     startBtn_disabled := false;
     nextBtn_disabled := true;
     sceneImage_src := EmptyString; sceneImage_alt := sceneImage_alt s;
     roundEl := 0; scoreEl := scoreEl s; distanceEl := distanceEl s;
     roundScoreEl := roundScoreEl s;
     hintEl := EmptyString;
     locationCreditEl := EmptyString;
     alerts := GameOver (totalScore s) :: alerts s |}.

(** The first line of [proceedNextRound]: [roundNum++]. *)
Definition incrRoundNum (s : State) : State :=
  {| guessMarker := guessMarker s; actualMarker := actualMarker s;
     line := line s; images := images s;
     currentIndex := currentIndex s; roundsTotal := roundsTotal s;
     roundNum := roundNum s + 1;
     totalScore := totalScore s;
     hasGuessed := hasGuessed s; mapView := mapView s;
     startBtn_disabled := startBtn_disabled s;
     nextBtn_disabled := nextBtn_disabled s;
     sceneImage_src := sceneImage_src s; sceneImage_alt := sceneImage_alt s;
     roundEl := roundEl s; scoreEl := scoreEl s; distanceEl := distanceEl s;
     roundScoreEl := roundScoreEl s; hintEl := hintEl s;
     locationCreditEl := locationCreditEl s; alerts := alerts s |}.

(** [roundEl.textContent = roundNum; currentIndex = roundNum - 1;] *)
Definition selectRound (s : State) : State :=
  {| guessMarker := guessMarker s; actualMarker := actualMarker s;
     line := line s; images := images s;
     currentIndex := roundNum s - 1;
     roundsTotal := roundsTotal s;
     roundNum := roundNum s;
     totalScore := totalScore s;
     hasGuessed := hasGuessed s; mapView := mapView s;
     startBtn_disabled := startBtn_disabled s;
     nextBtn_disabled := nextBtn_disabled s;
     sceneImage_src := sceneImage_src s; sceneImage_alt := sceneImage_alt s;
     roundEl := roundNum s;
     scoreEl := scoreEl s; distanceEl := distanceEl s;
     roundScoreEl := roundScoreEl s; hintEl := hintEl s;
     locationCreditEl := locationCreditEl s; alerts := alerts s |}.

(** [function proceedNextRound()].  [showImage(images[currentIndex])] reads
    [imageObj.url], a [TypeError] when the entry is [undefined]. *)
Definition proceedNextRound (s : State) : Completion :=
  let s1 := incrRoundNum s in
  if ((roundNum s1 >? roundsTotal s1)
      || (roundNum s1 >? Z.of_nat (length (images s1))))%Z
  then Normal (endGame s1)
  else
    let s2 := selectRound s1 in
    match array_get (images s2) (currentIndex s2) with
    | None => Throw s2
    | Some imageObj => Normal (resetRoundState (showImage imageObj s2))
    end.

(** The guess marker of [onMapClick] is placed, or moved, before the answer
    is looked up. *)
Definition placeGuessMarker (latlng : L.LatLng) (s : State) : State :=
  {| guessMarker := Some latlng;
     actualMarker := actualMarker s;
     line := line s; images := images s;
     currentIndex := currentIndex s; roundsTotal := roundsTotal s;
     roundNum := roundNum s; totalScore := totalScore s;
     hasGuessed := hasGuessed s; mapView := mapView s;
     startBtn_disabled := startBtn_disabled s;
     nextBtn_disabled := nextBtn_disabled s;
     sceneImage_src := sceneImage_src s; sceneImage_alt := sceneImage_alt s;
     roundEl := roundEl s; scoreEl := scoreEl s; distanceEl := distanceEl s;
     roundScoreEl := roundScoreEl s; hintEl := hintEl s;
     locationCreditEl := locationCreditEl s; alerts := alerts s |}.

(** The rest of [onMapClick], once [actual] is a record. *)
Definition revealAndScore (latlng : L.LatLng) (actual : Image) (s : State)
    : State :=
  let actualLatLng := L.latLng (lat actual) (lng actual) in
  let distKm :=
    haversine (L.lat latlng) (L.lng latlng) (lat actual) (lng actual) in
  let points := computeScore distKm in
  {| guessMarker := guessMarker s;
     actualMarker := Some actualLatLng;
     line := Some (latlng, actualLatLng);
     images := images s;
     currentIndex := currentIndex s; roundsTotal := roundsTotal s;
     roundNum := roundNum s;
     totalScore := totalScore s + points;
     hasGuessed := true;
     mapView := FitBounds latlng actualLatLng;
     startBtn_disabled := startBtn_disabled s;
     nextBtn_disabled := false;
     sceneImage_src := sceneImage_src s; sceneImage_alt := sceneImage_alt s;
     roundEl := roundEl s;
     scoreEl := totalScore s + points;
     distanceEl := Some distKm;
     roundScoreEl := Some points;
     hintEl := hintEl s;
     locationCreditEl := String.append "Answer location: " (name actual);
     alerts := alerts s |}.

(** [function onMapClick(e)], with [latlng] for [e.latlng].  Reading
    [actual.lat] is a [TypeError] when [images[currentIndex]] is
    [undefined]. *)
Definition onMapClick (latlng : L.LatLng) (s : State) : Completion :=
  if (roundNum s =? 0)%Z then Normal s
  else if hasGuessed s then Normal s
  else
    let s1 := placeGuessMarker latlng s in
    match array_get (images s1) (currentIndex s1) with
    | None => Throw s1
    | Some actual => Normal (revealAndScore latlng actual s1)
    end.

(** The alert of [startGame] when there is no image. *)
Definition alertNoImages (s : State) : State :=
  {| guessMarker := guessMarker s; actualMarker := actualMarker s;
     line := line s; images := images s;
     currentIndex := currentIndex s; roundsTotal := roundsTotal s;
     roundNum := roundNum s; totalScore := totalScore s;
     hasGuessed := hasGuessed s; mapView := mapView s;
     startBtn_disabled := startBtn_disabled s;
     nextBtn_disabled := nextBtn_disabled s;
     sceneImage_src := sceneImage_src s; sceneImage_alt := sceneImage_alt s;
     roundEl := roundEl s; scoreEl := scoreEl s; distanceEl := distanceEl s;
     roundScoreEl := roundScoreEl s; hintEl := hintEl s;
     locationCreditEl := locationCreditEl s;
     alerts := NoImagesFound :: alerts s |}.

(** The five assignments of [startGame] between the emptiness test and the
    call of [proceedNextRound]. *)
Definition resetGame (s : State) : State :=
  {| guessMarker := guessMarker s; actualMarker := actualMarker s;
     line := line s; images := images s;
     currentIndex := currentIndex s; roundsTotal := roundsTotal s;
     roundNum := 0;
     totalScore := 0;
     hasGuessed := hasGuessed s; mapView := mapView s;
     startBtn_disabled := true;
     nextBtn_disabled := true;
     sceneImage_src := sceneImage_src s; sceneImage_alt := sceneImage_alt s;
     roundEl := roundEl s;
     scoreEl := 0;
     distanceEl := distanceEl s;
     roundScoreEl := roundScoreEl s; hintEl := hintEl s;
     locationCreditEl := locationCreditEl s; alerts := alerts s |}.

(** [async function startGame()] *)
Definition startGame (fetched : option (list Image)) (rnd : nat -> Draw)
    (s : State) : Completion :=
  let s1 := loadDataset fetched rnd s in
  if (Z.of_nat (length (images s1)) =? 0)%Z then Normal (alertNoImages s1)
  else proceedNextRound (resetGame s1).

(** The click listener of [nextBtn]. *)
Definition nextBtn_click (s : State) : Completion :=
  if negb (hasGuessed s) then Normal s
  else if (roundNum s >=? roundsTotal s)%Z then Normal (endGame s)
  else proceedNextRound s.

(** ** The page as a transition system *)

(** What the player can do.  A click on the start button comes with what the
    fetch will return and with the random numbers the shuffle will draw: it
    stands for a click whose [startGame] runs to its end before anything
    else happens on the page. *)
Inductive Event :=
| StartClick (fetched : option (list Image)) (rnd : nat -> Draw)
| MapClick (latlng : L.LatLng)
| NextClick.

(** The browser runs the listener of the element clicked; a disabled button
    does not receive clicks. *)
Definition dispatch (e : Event) (s : State) : Completion :=
  match e with
  | StartClick fetched rnd =>
      if startBtn_disabled s then Normal s else startGame fetched rnd s
  | MapClick latlng => onMapClick latlng s
  | NextClick => if nextBtn_disabled s then Normal s else nextBtn_click s
  end.

Definition step (e : Event) (s : State) : State := after (dispatch e s).

(** *** Starts that overlap

    [startGame] is an [async] function.  A click on the start button calls
    it; it calls [loadDataset], which suspends at [await fetch(...)], and
    the listener returns.  The start button is disabled by the code after
    [await loadDataset()], not before: while a call is suspended the button
    takes further clicks, so several calls can be suspended at once.  When
    the fetch of a call has settled, [loadDataset] assigns [images]; after
    that [startGame] goes on from its [await]. *)

(** The part of [startGame] after [await loadDataset()]. *)
Definition startGame_resume (s : State) : Completion :=
  if (Z.of_nat (length (images s)) =? 0)%Z then Normal (alertNoImages s)
  else proceedNextRound (resetGame s).

(** The page: its state, the number of calls of [startGame] whose fetch has
    not settled, and the number of those whose [loadDataset] has returned
    and which have not gone on yet. *)
Record Page := mkPage {
  vars : State;
  fetching : nat;
  loaded : nat
}.

(** What happens on the page.  Between [FetchSettled] and the [StartResumed]
    of the same call a browser runs no listener; the system does not ask for
    that, which adds states and removes none. *)
Inductive PageEvent :=
| StartPressed
| FetchSettled (fetched : option (list Image)) (rnd : nat -> Draw)
| StartResumed
| MapPressed (latlng : L.LatLng)
| NextPressed.

Definition pageStep (e : PageEvent) (p : Page) : Page :=
  match e with
  | StartPressed =>
      if startBtn_disabled (vars p) then p
      else mkPage (vars p) (S (fetching p)) (loaded p)
  | FetchSettled fetched rnd =>
      match fetching p with
      | O => p
      | S n => mkPage (loadDataset fetched rnd (vars p)) n (S (loaded p))
      end
  | StartResumed =>
      match loaded p with
      | O => p
      | S n => mkPage (after (startGame_resume (vars p))) (fetching p) n
      end
  | MapPressed latlng =>
      mkPage (step (MapClick latlng) (vars p)) (fetching p) (loaded p)
  | NextPressed =>
      mkPage (step NextClick (vars p)) (fetching p) (loaded p)
  end.

(** The page after a sequence of events. *)
Definition pageRun (es : list PageEvent) (p : Page) : Page :=
  fold_left (fun p e => pageStep e p) es p.

(** The pages that can be met. *)
Inductive reachablePage : Page -> Prop :=
| reachablePage_initial (startDisabled nextDisabled : bool) :
    reachablePage (mkPage (initial startDisabled nextDisabled) 0 0)
| reachablePage_step (e : PageEvent) (p : Page) :
    reachablePage p -> reachablePage (pageStep e p).

(** The states the page can be in. *)
Definition reachable (s : State) : Prop :=
  exists f l, reachablePage (mkPage s f l).

(** One round played to its end: a guess on the map, then the next button. *)
Definition playRound (latlng : L.LatLng) (s : State) : State :=
  step NextClick (step (MapClick latlng) s).

(** The first [k] rounds played with the guesses [guess 0], [guess 1], ... *)
Fixpoint playRounds (guess : nat -> L.LatLng) (k : nat) (s : State) : State :=
  match k with
  | O => s
  | S k' => playRound (guess k') (playRounds guess k' s)
  end.

(** The three phases of the specification's state machine. *)
Definition awaitingGuess (s : State) : Prop :=
  roundNum s <> 0%Z /\ hasGuessed s = false.

Definition guessed (s : State) : Prop :=
  roundNum s <> 0%Z /\ hasGuessed s = true.

Definition gameOver (s : State) : Prop :=
  roundNum s = 0%Z /\ startBtn_disabled s = false
  /\ exists total rest, alerts s = GameOver total :: rest.

(** The points a guess earns against an image. *)
Definition pointsFor (latlng : L.LatLng) (actual : Image) : Z :=
  computeScore
    (haversine (L.lat latlng) (L.lng latlng) (lat actual) (lng actual)).


(** Whether an event is a click on the start button. *)
Definition isStart (e : Event) : bool :=
  match e with StartClick _ _ => true | _ => false end.

(** The points of the first [k] rounds on the images [imgs]. *)
Fixpoint pointsOfRounds (guess : nat -> L.LatLng) (imgs : list Image)
    (k : nat) : Z :=
  match k with
  | O => 0
  | S k' =>
      pointsOfRounds guess imgs k'
      + match imgs !! k' with
        | Some actual => pointsFor (guess k') actual
        | None => 0
        end
  end.

(** A state that awaits the guess of round [r]. *)
Definition inRound (r : Z) (s : State) : Prop :=
  roundNum s = r
  /\ (1 <= r <= roundsTotal s)%Z
  /\ (r <= Z.of_nat (length (images s)))%Z
  /\ currentIndex s = (r - 1)%Z
  /\ hasGuessed s = false.

(** ** What the page shows *)

(** The page as [endGame] leaves it. *)
Definition gameOverPage (s : State) : Prop :=
  startBtn_disabled s = false /\ nextBtn_disabled s = true
  /\ scoreEl s = totalScore s /\ roundEl s = 0%Z
  /\ sceneImage_src s = EmptyString /\ hintEl s = EmptyString
  /\ locationCreditEl s = EmptyString.

(** What holds of the round variables and of the page while a round is
    on. *)
Definition roundFacts (s : State) : Prop :=
  (1 <= roundNum s <= roundsTotal s)%Z
  /\ currentIndex s = (roundNum s - 1)%Z
  /\ startBtn_disabled s = true
  /\ nextBtn_disabled s = negb (hasGuessed s)
  /\ roundEl s = roundNum s
  /\ scoreEl s = totalScore s.

(** What holds while no round is on: when the last alert is that of the end
    of a game, it gave the score kept, and the page is as [endGame] left
    it. *)
Definition idleFacts (s : State) : Prop :=
  forall total rest,
    alerts s = GameOver total :: rest ->
    total = totalScore s /\ gameOverPage s.

(** The invariant of the page.  It says nothing of [images]: a call of
    [startGame] that was suspended can replace them at any time. *)
Definition pageInvariant (s : State) : Prop :=
  roundsTotal s = 5%Z
  /\ (roundNum s = 0%Z \/ roundFacts s)
  /\ (nextBtn_disabled s = false -> hasGuessed s = true ->
      roundNum s <> 0%Z)
  /\ (roundNum s = 0%Z -> idleFacts s).

(** ** Sample data *)

(** A draw of [Math.random] and two dataset entries, for the examples. *)
Definition zeroDraw : Draw := mkDraw 0 (conj (Rle_refl 0) Rlt_0_1).

Definition noRandom : nat -> Draw := fun _ => zeroDraw.

Definition paris : Image :=
  mkImage "paris.jpg" "Paris" (Some "A tower of iron"%string) 48.8566 2.3522.

Definition quito : Image :=
  mkImage "quito.jpg" "Quito" None (-0.1807) (-78.4678).

(** Another draw of [Math.random]. *)
Definition halfDraw : Draw := mkDraw (/ 2) ltac:(lra).

(** A game on one image: round 1 awaiting its guess, the round guessed, and
    the game over. *)
Definition sampleRound : State :=
  step (StartClick (Some [paris]) noRandom) (initial false true).

Definition sampleGuessed : State :=
  step (MapClick (L.latLng 0 0)) sampleRound.

Definition sampleOver : State := step NextClick sampleGuessed.

(** Two clicks on the start button before any fetch has settled; then the
    fetch of one call gives one image, and that call goes on: round 1. *)
Definition firstStarted : Page :=
  pageRun [StartPressed; StartPressed;
           FetchSettled (Some [paris]) noRandom; StartResumed]
    (mkPage (initial false true) 0 0).

(** After that the fetch of the other call settles with [second], and that
    call goes on. *)
Definition overlappingStarts (second : option (list Image)) : Page :=
  pageRun [FetchSettled second noRandom; StartResumed] firstStarted.

(** * Properties *)

(** ** Rounding, maximum and minimum *)






(** ** The scoring curve *)











(** ** Binary64 arithmetic *)













Lemma add_nan_r (x : float) : (x + nan)%float = nan.
Proof.
  apply Prim2SF_inj. rewrite FloatAxioms.add_spec.
  change (Prim2SF nan) with S754_nan.
  destruct (Prim2SF x); reflexivity.
Qed.

Lemma leb_nan_r (x : float) : (x <=? nan)%float = false.
Proof.
  rewrite FloatAxioms.leb_spec. change (Prim2SF nan) with S754_nan.
  destruct (Prim2SF x); reflexivity.
Qed.

(** ** The distance in binary64 *)








(** When the square root of [1 - a] is [NaN], so is the distance. *)
Lemma haversine_nan (M : Binary64.Engine) (lat1 lon1 lat2 lon2 : float) :
  Binary64.conforms M ->
  Binary64.Math.sqrt (1 - Binary64.haversine_a M lat1 lon1 lat2 lon2) = nan ->
  Binary64.haversine M lat1 lon1 lat2 lon2 = nan.
Proof.
  intros HM Hs. unfold Binary64.haversine. cbv zeta.
  rewrite Hs, (Binary64.atan2_nan M HM). reflexivity.
Qed.



Lemma nearestEngine_conforms : Binary64.conforms Binary64.nearestEngine.
Proof. split; reflexivity. Qed.

Lemma nearestEngine_nearestOnOpposite :
  Binary64.nearestOnOpposite Binary64.nearestEngine.
Proof. split; reflexivity. Qed.

(** [Math.round] on ties and near them: a tie goes up, also below zero, and
    a result in [-0.5, 0) is [-0]. *)
Lemma Math_round_ties :
  Binary64.Math.round 0.5 = 1%float
  /\ Binary64.Math.round 2.5 = 3%float
  /\ Binary64.Math.round (-2.5) = (-2)%float
  /\ Binary64.Math.round (-0.5) = neg_zero
  /\ Binary64.Math.round 0x1.fffffffffffffp-2 = 0%float
  /\ Binary64.Math.round 4999.5 = 5000%float.
Proof. repeat split; reflexivity. Qed.

(** ** The scoring curve in binary64 *)


(** X21: where the rounding of the operations shows in the score.  The
    argument of [Math.round] at 19998 km is a little under 0.5, at 3618 km
    it is 4095.5 and at 3622 km a little over 4094.5, and at the Number
    after 2 it is 4999.5: the scores are 0, 4095, 4095 and 5000. *)
Theorem computeScore_binary64_steps :
  Binary64.computeScore 19998 = 0%float
  /\ Binary64.computeScore 3618 = 4095%float
  /\ Binary64.computeScore 3622 = 4095%float
  /\ Binary64.computeScore 0x1.0000000000001p+1 = 5000%float.
Proof. repeat split; reflexivity. Qed.

(** [NaN] goes through [computeScore]: the test [d <= 1] fails, and
    [Math.min], [Math.max] and [Math.round] hand it on. *)
Lemma computeScore_nan : Binary64.computeScore nan = nan.
Proof. reflexivity. Qed.

(** ** The distance in binary64: symmetry and zero *)




(** ** A distance that is not a number *)

(** The quantity [a] of the nearly opposite pair is the Number after 1. *)
Lemma haversine_a_opposite (M : Binary64.Engine) :
  Binary64.nearestOnOpposite M ->
  Binary64.haversine_a M Binary64.guessLat Binary64.guessLng
    Binary64.actualLat Binary64.actualLng
  = 0x1.0000000000001p+0%float.
Proof.
  intros [Hs1 Hc1 Hc2 Hs2]. unfold Binary64.haversine_a. cbv zeta.
  change (Binary64.toRad (Binary64.actualLat - Binary64.guessLat) / 2)%float
    with (- 0x1.6e05a695f8191p-10)%float.
  change (Binary64.toRad (Binary64.actualLng - Binary64.guessLng) / 2)%float
    with 0x1.921fb54442d18p+0%float.
  change (Binary64.toRad Binary64.guessLat) with 0x1.6e05a695f8191p-10%float.
  change (Binary64.toRad Binary64.actualLat)
    with (- 0x1.6e05a695f8191p-10)%float.
  rewrite Hs1, Hc1, Hc2, Hs2. reflexivity.
Qed.

(** C8: for a guess at latitude 0.08, longitude 0, and an image at latitude
    -0.08, longitude 180, on an engine whose sines and cosines are the
    nearest Numbers, [a] exceeds 1, the distance is [NaN], so are the points
    of the round, and so is every total they are added to; no comparison
    with [NaN] holds. *)
Theorem opposite_guess_scores_nan (M : Binary64.Engine) :
  Binary64.conforms M -> Binary64.nearestOnOpposite M ->
  (1 <? Binary64.haversine_a M Binary64.guessLat Binary64.guessLng
          Binary64.actualLat Binary64.actualLng)%float = true
  /\ Binary64.haversine M Binary64.guessLat Binary64.guessLng
       Binary64.actualLat Binary64.actualLng = nan
  /\ Binary64.computeScore
       (Binary64.haversine M Binary64.guessLat Binary64.guessLng
          Binary64.actualLat Binary64.actualLng) = nan
  /\ (0 <=? Binary64.computeScore
              (Binary64.haversine M Binary64.guessLat Binary64.guessLng
                 Binary64.actualLat Binary64.actualLng))%float = false
  /\ (forall totalScore : float,
        (totalScore
         + Binary64.computeScore
             (Binary64.haversine M Binary64.guessLat Binary64.guessLng
                Binary64.actualLat Binary64.actualLng))%float = nan)
  /\ (forall totalScore : float,
        (totalScore
         <=? totalScore
             + Binary64.computeScore
                 (Binary64.haversine M Binary64.guessLat Binary64.guessLng
                    Binary64.actualLat Binary64.actualLng))%float = false).
Proof.
  intros HM HN.
  assert (Ha := haversine_a_opposite M HN).
  assert (Hd : Binary64.haversine M Binary64.guessLat Binary64.guessLng
                 Binary64.actualLat Binary64.actualLng = nan).
  { apply haversine_nan; [exact HM |]. rewrite Ha. reflexivity. }
  rewrite Ha, Hd, computeScore_nan.
  split; [reflexivity |]. split; [reflexivity |]. split; [reflexivity |].
  split; [reflexivity |]. split.
  - intros totalScore. apply add_nan_r.
  - intros totalScore. rewrite add_nan_r. apply leb_nan_r.
Qed.

Lemma opposite_guess_scores_nan_witness :
  Binary64.haversine Binary64.nearestEngine Binary64.guessLat
    Binary64.guessLng Binary64.actualLat Binary64.actualLng = nan.
Proof.
  apply (opposite_guess_scores_nan Binary64.nearestEngine).
  - exact nearestEngine_conforms.
  - exact nearestEngine_nearestOnOpposite.
Defined.


(** ** Shuffle *)

Lemma swap_Permutation {A : Type} (arr : list A) (i j : nat) :
  swap arr i j ≡ₚ arr.
Proof.
  unfold swap.
  destruct (arr !! i) as [x |] eqn:Hi; [| reflexivity].
  destruct (arr !! j) as [y |] eqn:Hj; [| reflexivity].
  apply Permutation_insert_swap; assumption.
Qed.


Lemma shuffle_loop_Permutation {A : Type} (rnd : nat -> Draw) (i k : nat)
    (arr : list A) :
  shuffle_loop rnd k i arr ≡ₚ arr.
Proof.
  revert k arr. induction i as [| i IH]; intros k arr; simpl.
  - reflexivity.
  - rewrite IH. apply swap_Permutation.
Qed.

(** The shuffled array is a rearrangement of the one given. *)
Lemma shuffle_Permutation {A : Type} (rnd : nat -> Draw) (arr : list A) :
  shuffle rnd arr ≡ₚ arr.
Proof. apply shuffle_loop_Permutation. Qed.

Lemma shuffle_length {A : Type} (rnd : nat -> Draw) (arr : list A) :
  length (shuffle rnd arr) = length arr.
Proof. apply Permutation_length, shuffle_Permutation. Qed.

(** The index drawn at counter [i] is one of [0 .. i]. *)
Lemma pick_le (r : Draw) (i : nat) : (pick r i <= i)%nat.
Proof.
  unfold pick, Math.floor.
  destruct r as [r [Hlo Hhi]]. simpl.
  assert (Hpos : 0 < INR (i + 1)) by (apply lt_0_INR; lia).
  pose proof (Zfloor_bound (r * INR (i + 1))) as [Hfl _].
  assert (Hlt : IZR (Zfloor (r * INR (i + 1))) < IZR (Z.of_nat (i + 1))).
  { rewrite <- INR_IZR_INZ. nra. }
  apply lt_IZR in Hlt. lia.
Qed.

(** A draw of 0 picks index 0: with such draws the loop moves the first
    entry to the end, step by step. *)
Lemma pick_zeroDraw (i : nat) : pick zeroDraw i = 0%nat.
Proof.
  unfold pick, Math.floor. simpl draw_val. rewrite Rmult_0_l.
  rewrite (Zfloor_eq 0); [reflexivity | lra].
Qed.

Example shuffle_two : shuffle noRandom [paris; quito] = [quito; paris].
Proof.
  unfold shuffle, noRandom. simpl. rewrite pick_zeroDraw. reflexivity.
Qed.

(** Every index the loop of [shuffle] hands to the swap is inside the
    array. *)
Lemma shuffle_index_in_range {A : Type} (r : Draw) (i : nat) (arr : list A) :
  (i < length arr)%nat ->
  is_Some (arr !! i) /\ is_Some (arr !! pick r i).
Proof.
  intros H. pose proof (pick_le r i).
  split; apply lookup_lt_is_Some; lia.
Qed.

(** ** Every arrangement is drawn by exactly one sequence of indices *)












(** ** The draws that give an arrangement *)







(** ** The guess handler *)

Lemma onMapClick_not_started (latlng : L.LatLng) (s : State) :
  roundNum s = 0%Z -> onMapClick latlng s = Normal s.
Proof. intros H. unfold onMapClick. rewrite H. reflexivity. Qed.

Lemma onMapClick_already_guessed (latlng : L.LatLng) (s : State) :
  hasGuessed s = true -> onMapClick latlng s = Normal s.
Proof.
  intros H. unfold onMapClick. rewrite H.
  destruct (roundNum s =? 0)%Z; reflexivity.
Qed.

(** What a click on the map does in a round that awaits its guess. *)
Lemma onMapClick_scores (latlng : L.LatLng) (s : State) (actual : Image) :
  roundNum s <> 0%Z -> hasGuessed s = false ->
  array_get (images s) (currentIndex s) = Some actual ->
  onMapClick latlng s
  = Normal (revealAndScore latlng actual (placeGuessMarker latlng s)).
Proof.
  intros Hr Hg Ha. unfold onMapClick.
  apply Z.eqb_neq in Hr. rewrite Hr, Hg. simpl. rewrite Ha. reflexivity.
Qed.

(** A click that ended normally was either ignored or scored. *)
Lemma onMapClick_Normal_inv (latlng : L.LatLng) (s s' : State) :
  onMapClick latlng s = Normal s' ->
  ((roundNum s = 0%Z \/ hasGuessed s = true) /\ s' = s)
  \/ (roundNum s <> 0%Z /\ hasGuessed s = false
      /\ exists actual,
           array_get (images s) (currentIndex s) = Some actual
           /\ s' = revealAndScore latlng actual (placeGuessMarker latlng s)).
Proof.
  unfold onMapClick. intros H.
  destruct (roundNum s =? 0)%Z eqn:Hr.
  { left. apply Z.eqb_eq in Hr. split; [left; exact Hr | congruence]. }
  destruct (hasGuessed s) eqn:Hg.
  { left. split; [right; reflexivity | congruence]. }
  simpl in H.
  destruct (array_get (images s) (currentIndex s)) as [actual |] eqn:Ha;
    [| discriminate].
  right. apply Z.eqb_neq in Hr. repeat split; try assumption.
  exists actual. split; [reflexivity | congruence].
Qed.

(** C3: a click on the map when the game has not started, when it is over,
    or when the round already has its guess leaves every variable and every
    page element as it was; so a second click after a guess that was taken
    changes nothing, [totalScore] included. *)
Theorem onMapClick_ignored :
  (forall latlng s,
      roundNum s = 0%Z \/ gameOver s \/ hasGuessed s = true ->
      onMapClick latlng s = Normal s)
  /\ (forall first second s s',
         onMapClick first s = Normal s' ->
         onMapClick second s' = Normal s'
         /\ totalScore (step (MapClick second) s') = totalScore s').
Proof.
  split.
  - intros latlng s [H | [[H _] | H]].
    + apply onMapClick_not_started, H.
    + apply onMapClick_not_started, H.
    + apply onMapClick_already_guessed, H.
  - intros first second s s' H.
    assert (Hsecond : onMapClick second s' = Normal s').
    { apply onMapClick_Normal_inv in H
        as [[[Hr | Hg] ->] | (Hr & Hg & actual & Ha & ->)].
      - apply onMapClick_not_started, Hr.
      - apply onMapClick_already_guessed, Hg.
      - apply onMapClick_already_guessed. reflexivity. }
    split; [exact Hsecond |].
    unfold step, dispatch. rewrite Hsecond. reflexivity.
Qed.

Lemma onMapClick_ignored_witness :
  onMapClick (L.latLng 10 20) (initial false true)
  = Normal (initial false true)
  /\ (let s := after (startGame (Some [paris]) noRandom (initial false true)) in
      let s' :=
        revealAndScore (L.latLng 0 0) paris
          (placeGuessMarker (L.latLng 0 0) s) in
      onMapClick (L.latLng 10 20) s' = Normal s'
      /\ totalScore (step (MapClick (L.latLng 10 20)) s') = totalScore s').
Proof.
  split.
  - apply (proj1 onMapClick_ignored (L.latLng 10 20) (initial false true)).
    left. reflexivity.
  - cbv zeta.
    apply (proj2 onMapClick_ignored (L.latLng 0 0) (L.latLng 10 20)
             (after (startGame (Some [paris]) noRandom (initial false true)))).
    apply onMapClick_scores.
    + discriminate.
    + reflexivity.
    + reflexivity.
Defined.

(** ** Advancing the round *)

Lemma array_get_Some {A : Type} (arr : list A) (i : Z) :
  (0 <= i < Z.of_nat (length arr))%Z ->
  exists x, array_get arr i = Some x /\ arr !! Z.to_nat i = Some x.
Proof.
  intros H. unfold array_get.
  destruct (i <? 0)%Z eqn:Hneg; [apply Z.ltb_lt in Hneg; lia |].
  destruct (lookup_lt_is_Some_2 arr (Z.to_nat i)) as [x Hx]; [lia |].
  exists x. split; exact Hx.
Qed.

Lemma array_get_bounds {A : Type} (arr : list A) (i : Z) (x : A) :
  array_get arr i = Some x -> (0 <= i < Z.of_nat (length arr))%Z.
Proof.
  unfold array_get. intros H.
  destruct (i <? 0)%Z eqn:Hneg; [discriminate |].
  apply Z.ltb_ge in Hneg. apply lookup_lt_Some in H. lia.
Qed.

(** The next round begins when a round and a location are left. *)
Lemma proceedNextRound_begins (s : State) :
  (0 <= roundNum s)%Z ->
  (roundNum s + 1 <= roundsTotal s)%Z ->
  (roundNum s + 1 <= Z.of_nat (length (images s)))%Z ->
  exists imageObj,
    array_get (images s) (roundNum s) = Some imageObj
    /\ proceedNextRound s
       = Normal (resetRoundState
                   (showImage imageObj (selectRound (incrRoundNum s)))).
Proof.
  intros H0 Hrt Hlen.
  destruct (array_get_Some (images s) (roundNum s)) as (img & Hget & _);
    [lia |].
  exists img. split; [exact Hget |].
  unfold proceedNextRound. cbn [roundNum roundsTotal images incrRoundNum].
  rewrite !Z.gtb_ltb.
  replace (roundsTotal s <? roundNum s + 1)%Z with false
    by (symmetry; apply Z.ltb_ge; lia).
  replace (Z.of_nat (length (images s)) <? roundNum s + 1)%Z with false
    by (symmetry; apply Z.ltb_ge; lia).
  cbn [orb selectRound currentIndex images roundNum incrRoundNum].
  replace (roundNum s + 1 - 1)%Z with (roundNum s) by lia.
  rewrite Hget. reflexivity.
Qed.

(** Otherwise the game ends. *)
Lemma proceedNextRound_ends (s : State) :
  (roundsTotal s < roundNum s + 1
   \/ Z.of_nat (length (images s)) < roundNum s + 1)%Z ->
  proceedNextRound s = Normal (endGame (incrRoundNum s)).
Proof.
  intros H. unfold proceedNextRound.
  cbn [roundNum roundsTotal images incrRoundNum].
  rewrite !Z.gtb_ltb.
  destruct H as [H | H]; apply Z.ltb_lt in H; rewrite H;
    [| rewrite orb_true_r]; reflexivity.
Qed.

(** [proceedNextRound] never changes the score, the images or the number of
    rounds. *)
Lemma proceedNextRound_frame (s : State) :
  totalScore (after (proceedNextRound s)) = totalScore s
  /\ images (after (proceedNextRound s)) = images s
  /\ roundsTotal (after (proceedNextRound s)) = roundsTotal s.
Proof.
  unfold proceedNextRound.
  destruct (_ || _)%bool; [cbn; auto |].
  destruct (array_get _ _); cbn; auto.
Qed.

(** ** Starting a game *)

Lemma shuffle_nil {A : Type} (rnd : nat -> Draw) : shuffle rnd (@nil A) = [].
Proof. reflexivity. Qed.

Lemma loadDataset_frame (fetched : option (list Image)) (rnd : nat -> Draw)
    (s : State) :
  roundNum (loadDataset fetched rnd s) = roundNum s
  /\ totalScore (loadDataset fetched rnd s) = totalScore s
  /\ roundsTotal (loadDataset fetched rnd s) = roundsTotal s.
Proof. repeat split. Qed.

(** C6 (as amended): when the fetch fails or the dataset is empty,
    [startGame] alerts the player and returns; no round begins, and the round
    number, the score, the guess flag, the active index, the buttons and the
    page stay as they were, while [images] becomes the empty array.  The
    state is wholly unchanged, the alert apart, when [images] was empty
    before. *)
Theorem startGame_without_images (fetched : option (list Image))
    (rnd : nat -> Draw) (s : State) :
  fetched = None \/ fetched = Some [] ->
  exists s',
    startGame fetched rnd s = Normal s'
    /\ s' = alertNoImages (loadDataset None rnd s)
    /\ alerts s' = NoImagesFound :: alerts s
    /\ images s' = []
    /\ roundNum s' = roundNum s
    /\ currentIndex s' = currentIndex s
    /\ totalScore s' = totalScore s
    /\ hasGuessed s' = hasGuessed s
    /\ roundsTotal s' = roundsTotal s
    /\ startBtn_disabled s' = startBtn_disabled s
    /\ nextBtn_disabled s' = nextBtn_disabled s
    /\ (images s = [] -> s' = alertNoImages s).
Proof.
  intros H. exists (alertNoImages (loadDataset None rnd s)).
  split.
  { destruct H as [-> | ->]; reflexivity. }
  repeat split.
  intros Hnil. destruct s. simpl in Hnil. subst. reflexivity.
Qed.

Lemma startGame_without_images_witness :
  exists s',
    startGame None noRandom (initial false true) = Normal s'
    /\ s' = alertNoImages (loadDataset None noRandom (initial false true))
    /\ alerts s' = NoImagesFound :: alerts (initial false true)
    /\ images s' = []
    /\ roundNum s' = roundNum (initial false true)
    /\ currentIndex s' = currentIndex (initial false true)
    /\ totalScore s' = totalScore (initial false true)
    /\ hasGuessed s' = hasGuessed (initial false true)
    /\ roundsTotal s' = roundsTotal (initial false true)
    /\ startBtn_disabled s' = startBtn_disabled (initial false true)
    /\ nextBtn_disabled s' = nextBtn_disabled (initial false true)
    /\ (images (initial false true) = [] ->
        s' = alertNoImages (initial false true)).
Proof.
  apply (startGame_without_images None noRandom (initial false true)).
  left. reflexivity.
Defined.

(** After a game played on one image, a start whose fetch fails empties
    [images]: the state is not what it was. *)
Lemma startGame_failed_fetch_empties_images :
  let s :=
    playRound (L.latLng 0 0)
      (step (StartClick (Some [paris]) noRandom) (initial false true)) in
  images s = [paris]
  /\ startBtn_disabled s = false
  /\ images (after (startGame None noRandom s)) = []
  /\ images (after (startGame None noRandom s)) <> images s.
Proof.
  cbv zeta. repeat split. discriminate.
Qed.

(** The state a successful start leaves: round 1 awaits its guess, on the
    shuffled dataset, with no points yet. *)
Lemma startGame_inRound (data : list Image) (rnd : nat -> Draw) (s : State) :
  data <> [] -> (1 <= roundsTotal s)%Z ->
  inRound 1 (after (startGame (Some data) rnd s))
  /\ images (after (startGame (Some data) rnd s)) = shuffle rnd data
  /\ roundsTotal (after (startGame (Some data) rnd s)) = roundsTotal s
  /\ totalScore (after (startGame (Some data) rnd s)) = 0%Z.
Proof.
  intros Hdata Hrt.
  assert (Hlen : (1 <= Z.of_nat (length (shuffle rnd data)))%Z).
  { rewrite shuffle_length. destruct data; [congruence | simpl; lia]. }
  unfold startGame. cbn [images loadDataset].
  destruct (Z.eqb_spec (Z.of_nat (length (shuffle rnd data))) 0); [lia |].
  set (s1 := resetGame (loadDataset (Some data) rnd s)).
  destruct (proceedNextRound_begins s1) as (first & _ & ->);
    [cbn; lia | cbn; lia | cbn; lia |].
  unfold inRound. cbn. repeat split; lia.
Qed.



(** ** What the handlers leave alone *)

Lemma onMapClick_frame (latlng : L.LatLng) (s : State) :
  images (after (onMapClick latlng s)) = images s
  /\ currentIndex (after (onMapClick latlng s)) = currentIndex s
  /\ roundNum (after (onMapClick latlng s)) = roundNum s
  /\ roundsTotal (after (onMapClick latlng s)) = roundsTotal s.
Proof.
  unfold onMapClick.
  destruct (roundNum s =? 0)%Z; [cbn; auto |].
  destruct (hasGuessed s); [cbn; auto |].
  destruct (array_get _ _); cbn; auto.
Qed.

Lemma proceedNextRound_roundNum (s : State) :
  roundNum (after (proceedNextRound s)) = 0%Z
  \/ roundNum (after (proceedNextRound s)) = (roundNum s + 1)%Z.
Proof.
  unfold proceedNextRound.
  destruct (_ || _)%bool; [left; reflexivity |].
  destruct (array_get _ _); right; reflexivity.
Qed.

(** ** Playing a game through *)

Lemma gameOver_endGame (s : State) : gameOver (endGame s).
Proof.
  split; [reflexivity |]. split; [reflexivity |].
  exists (totalScore s), (alerts s). reflexivity.
Qed.

(** A guess in a round that awaits one is scored against the active image
    and enables the next button. *)
Lemma step_MapClick_inRound (latlng : L.LatLng) (r : Z) (s : State)
    (actual : Image) :
  inRound r s ->
  array_get (images s) (r - 1) = Some actual ->
  step (MapClick latlng) s
  = revealAndScore latlng actual (placeGuessMarker latlng s).
Proof.
  intros (Hr & Hrange & Hlen & Hidx & Hg) Ha.
  unfold step, dispatch.
  rewrite (onMapClick_scores latlng s actual); [reflexivity | lia | exact Hg |].
  rewrite Hidx. exact Ha.
Qed.

(** One round, from the state that awaits its guess to the state after the
    next button. *)
Lemma playRound_inRound (latlng : L.LatLng) (r : Z) (s : State)
    (actual : Image) :
  inRound r s ->
  array_get (images s) (r - 1) = Some actual ->
  images (playRound latlng s) = images s
  /\ roundsTotal (playRound latlng s) = roundsTotal s
  /\ totalScore (playRound latlng s)
     = (totalScore s + pointsFor latlng actual)%Z
  /\ ((r < roundsTotal s)%Z -> (r < Z.of_nat (length (images s)))%Z ->
      inRound (r + 1) (playRound latlng s))
  /\ (r = roundsTotal s \/ r = Z.of_nat (length (images s)) ->
      gameOver (playRound latlng s)).
Proof.
  intros Hin Ha. pose proof Hin as (Hr & Hrange & Hlen & Hidx & Hg).
  unfold playRound. rewrite (step_MapClick_inRound latlng r s actual Hin Ha).
  set (s1 := revealAndScore latlng actual (placeGuessMarker latlng s)).
  assert (Hs1 : roundNum s1 = r /\ roundsTotal s1 = roundsTotal s
                /\ images s1 = images s
                /\ totalScore s1 = (totalScore s + pointsFor latlng actual)%Z)
    by (repeat split; exact Hr).
  destruct Hs1 as (Hr1 & Hrt1 & Himg1 & Htot1).
  unfold step, dispatch. cbn [nextBtn_disabled s1 revealAndScore].
  unfold nextBtn_click. cbn [hasGuessed s1 revealAndScore negb].
  destruct (Z.geb_spec (roundNum s1) (roundsTotal s1)) as [Hge | Hlt].
  { (* the last of the rounds *)
    cbn [after].
    split; [exact Himg1 |]. split; [exact Hrt1 |]. split; [exact Htot1 |].
    split.
    - intros H. lia.
    - intros _. apply gameOver_endGame. }
  destruct (proceedNextRound_frame s1) as (Ftot & Fimg & Frt).
  rewrite Ftot, Fimg, Frt.
  split; [exact Himg1 |]. split; [exact Hrt1 |]. split; [exact Htot1 |].
  split.
  - intros _ Hleft.
    destruct (proceedNextRound_begins s1) as (img & _ & ->); [lia | lia | |].
    { rewrite Himg1. lia. }
    unfold inRound.
    cbn [after roundNum roundsTotal images currentIndex hasGuessed
         resetRoundState showImage selectRound incrRoundNum].
    rewrite Hr1, Hrt1, Himg1. repeat split; lia.
  - intros [H | H]; [lia |].
    rewrite proceedNextRound_ends.
    + apply gameOver_endGame.
    + right. rewrite Himg1. lia.
Qed.

Lemma array_get_of_nat {A : Type} (arr : list A) (k : nat) :
  array_get arr (Z.of_nat k) = arr !! k.
Proof.
  unfold array_get.
  destruct (Z.ltb_spec (Z.of_nat k) 0); [lia |].
  rewrite Nat2Z.id. reflexivity.
Qed.

(** The game up to, but not including, its last round. *)
Lemma playRounds_inRound (guess : nat -> L.LatLng) (s0 : State) (k : nat) :
  inRound 1 s0 ->
  (Z.of_nat k < Z.min (roundsTotal s0) (Z.of_nat (length (images s0))))%Z ->
  inRound (Z.of_nat k + 1) (playRounds guess k s0)
  /\ images (playRounds guess k s0) = images s0
  /\ roundsTotal (playRounds guess k s0) = roundsTotal s0
  /\ totalScore (playRounds guess k s0)
     = (totalScore s0 + pointsOfRounds guess (images s0) k)%Z.
Proof.
  intros H0. induction k as [| k IH]; intros Hk.
  - cbn [playRounds pointsOfRounds]. repeat split; try apply H0. lia.
  - destruct IH as (Hin & Himg & Hrt & Htot); [lia |].
    cbn [playRounds pointsOfRounds].
    destruct (array_get_Some (images (playRounds guess k s0)) (Z.of_nat k))
      as (actual & Hget & _); [rewrite Himg; lia |].
    assert (Hlook : images s0 !! k = Some actual).
    { rewrite <- Himg, <- array_get_of_nat. exact Hget. }
    destruct (playRound_inRound (guess k) (Z.of_nat k + 1)
                (playRounds guess k s0) actual Hin)
      as (Himg' & Hrt' & Htot' & Hnext & _).
    { replace (Z.of_nat k + 1 - 1)%Z with (Z.of_nat k) by lia. exact Hget. }
    split.
    { replace (Z.of_nat (S k) + 1)%Z with (Z.of_nat k + 1 + 1)%Z by lia.
      apply Hnext; [rewrite Hrt | rewrite Himg]; lia. }
    split; [congruence |]. split; [congruence |].
    rewrite Htot', Htot, Hlook. lia.
Qed.

(** C2: after a successful [startGame] on [N] locations, with
    [m = min(roundsTotal, N)]: for every [k < m], after [k] rounds (a guess,
    then the next button) the game is in round [k + 1], not over, and takes
    one guess, scored against the k-th shuffled location; after [m] rounds
    the game is over, with the points of the [m] guesses as the total.  [m]
    is [roundsTotal] when [N >= roundsTotal] and [N] when
    [N < roundsTotal]. *)
Theorem rounds_before_game_over (data : list Image) (rnd : nat -> Draw)
    (guess : nat -> L.LatLng) (s : State) :
  data <> [] -> (1 <= roundsTotal s)%Z ->
  let N := Z.of_nat (length data) in
  let m := Z.to_nat (Z.min (roundsTotal s) N) in
  let s0 := after (startGame (Some data) rnd s) in
  (forall k, (k < m)%nat ->
     let sk := playRounds guess k s0 in
     awaitingGuess sk
     /\ ~ gameOver sk
     /\ roundNum sk = (Z.of_nat k + 1)%Z
     /\ exists actual,
          shuffle rnd data !! k = Some actual
          /\ array_get (images sk) (currentIndex sk) = Some actual
          /\ guessed (step (MapClick (guess k)) sk)
          /\ totalScore (step (MapClick (guess k)) sk)
             = (totalScore sk + pointsFor (guess k) actual)%Z)
  /\ gameOver (playRounds guess m s0)
  /\ totalScore (playRounds guess m s0)
     = pointsOfRounds guess (shuffle rnd data) m
  /\ (1 <= m)%nat
  /\ ((roundsTotal s <= N)%Z -> Z.of_nat m = roundsTotal s)
  /\ ((N < roundsTotal s)%Z -> Z.of_nat m = N).
Proof.
  intros Hdata Hrt N m s0.
  destruct (startGame_inRound data rnd s Hdata Hrt)
    as (Hin0 & Himg0 & Hrt0 & Htot0).
  fold s0 in Hin0, Himg0, Hrt0, Htot0.
  assert (HN : (1 <= N)%Z).
  { unfold N. destruct data; [congruence | simpl; lia]. }
  assert (Hlen0 : Z.of_nat (length (images s0)) = N).
  { rewrite Himg0, shuffle_length. reflexivity. }
  assert (Hm : Z.of_nat m = Z.min (roundsTotal s) N) by (unfold m; lia).
  assert (Hbefore : forall k, (k < m)%nat ->
            inRound (Z.of_nat k + 1) (playRounds guess k s0)
            /\ images (playRounds guess k s0) = images s0
            /\ roundsTotal (playRounds guess k s0) = roundsTotal s0
            /\ totalScore (playRounds guess k s0)
               = (totalScore s0 + pointsOfRounds guess (images s0) k)%Z).
  { intros k Hk. apply playRounds_inRound; [exact Hin0 |].
    rewrite Hrt0, Hlen0. lia. }
  split; [| split; [| split; [| split; [| split]]]].
  - intros k Hk sk.
    destruct (Hbefore k Hk) as (Hin & Himg & Hrtk & Htot). fold sk in Hin, Himg.
    pose proof Hin as (Hr & Hrange & Hlen & Hidx & Hg).
    destruct (array_get_Some (images sk) (Z.of_nat k)) as (actual & Hget & _);
      [lia |].
    split; [split; [lia | exact Hg] |].
    split; [intros (Hz & _); lia |].
    split; [exact Hr |].
    exists actual.
    split; [rewrite <- Himg0, <- Himg, <- array_get_of_nat; exact Hget |].
    split; [rewrite Hidx; replace (Z.of_nat k + 1 - 1)%Z with (Z.of_nat k)
                            by lia; exact Hget |].
    rewrite (step_MapClick_inRound (guess k) (Z.of_nat k + 1) sk actual Hin)
      by (replace (Z.of_nat k + 1 - 1)%Z with (Z.of_nat k) by lia; exact Hget).
    split; [split; [cbn; lia | reflexivity] | reflexivity].
  - destruct m as [| k] eqn:Em; [lia |].
    destruct (Hbefore k) as (Hin & Himg & Hrtk & Htot); [lia |].
    destruct (array_get_Some (images (playRounds guess k s0)) (Z.of_nat k))
      as (actual & Hget & _); [rewrite Himg; lia |].
    destruct (playRound_inRound (guess k) (Z.of_nat k + 1)
                (playRounds guess k s0) actual Hin)
      as (_ & _ & _ & _ & Hover).
    { replace (Z.of_nat k + 1 - 1)%Z with (Z.of_nat k) by lia. exact Hget. }
    cbn [playRounds]. apply Hover. rewrite Hrtk, Himg, Hrt0, Hlen0. lia.
  - destruct m as [| k] eqn:Em; [lia |].
    destruct (Hbefore k) as (Hin & Himg & Hrtk & Htot); [lia |].
    destruct (array_get_Some (images (playRounds guess k s0)) (Z.of_nat k))
      as (actual & Hget & _); [rewrite Himg; lia |].
    destruct (playRound_inRound (guess k) (Z.of_nat k + 1)
                (playRounds guess k s0) actual Hin)
      as (_ & _ & Htot' & _ & _).
    { replace (Z.of_nat k + 1 - 1)%Z with (Z.of_nat k) by lia. exact Hget. }
    cbn [playRounds pointsOfRounds]. rewrite Htot', Htot, Htot0.
    rewrite <- Himg0, <- Himg, <- array_get_of_nat, Hget. lia.
  - lia.
  - lia.
  - lia.
Qed.

Lemma rounds_before_game_over_witness :
  gameOver
    (playRounds (fun _ => L.latLng 0 0)
       (Z.to_nat
          (Z.min (roundsTotal (initial false true))
             (Z.of_nat (length [paris; quito]))))
       (after (startGame (Some [paris; quito]) noRandom
                 (initial false true)))).
Proof.
  apply (rounds_before_game_over [paris; quito] noRandom
           (fun _ => L.latLng 0 0) (initial false true)).
  - discriminate.
  - simpl. lia.
Defined.

(** ** A call of [startGame] that goes on during a round *)

(** The body of [startGame] has no guard of its own: the start button is
    what keeps it from running during a game.  Gone on in a round that
    awaits its guess, after a fetch that failed, it empties [images] and
    leaves the round on, and the guess that follows reads
    [images[currentIndex]] as [undefined]. *)
Lemma startGame_in_round_breaks_guess (rnd : nat -> Draw) (latlng : L.LatLng)
    (s : State) :
  awaitingGuess s ->
  exists s', onMapClick latlng (after (startGame None rnd s)) = Throw s'.
Proof.
  intros [Hr Hg].
  change (after (startGame None rnd s))
    with (alertNoImages (loadDataset None rnd s)).
  unfold onMapClick.
  change (roundNum (alertNoImages (loadDataset None rnd s)))
    with (roundNum s).
  change (hasGuessed (alertNoImages (loadDataset None rnd s)))
    with (hasGuessed s).
  apply Z.eqb_neq in Hr. rewrite Hr, Hg.
  cbn [images currentIndex alertNoImages loadDataset placeGuessMarker].
  unfold array_get. destruct (currentIndex s <? 0)%Z; [eauto |].
  rewrite lookup_nil. eauto.
Qed.

(** ** More on the shuffle *)




Lemma pick_draw_val (r r' : Draw) (i : nat) :
  draw_val r = draw_val r' -> pick r i = pick r' i.
Proof. intros H. unfold pick. rewrite H. reflexivity. Qed.

Lemma shuffle_loop_reads_draws {A : Type} (rnd rnd' : nat -> Draw) (i : nat) :
  forall (k : nat) (arr : list A),
    (forall n, (k <= n < k + i)%nat -> draw_val (rnd n) = draw_val (rnd' n)) ->
    shuffle_loop rnd k i arr = shuffle_loop rnd' k i arr.
Proof.
  induction i as [| i IH]; intros k arr H; simpl.
  - reflexivity.
  - rewrite (pick_draw_val (rnd k) (rnd' k)) by (apply H; lia).
    apply IH. intros n Hn. apply H. lia.
Qed.

(** X8: [shuffle] reads the first [length - 1] results of [Math.random]
    and no other: two oracles that agree on them give the same array.  An
    array of at most one entry is returned as it is, whatever the oracle. *)
Theorem shuffle_reads_draws {A : Type} (rnd rnd' : nat -> Draw)
    (arr : list A) :
  (forall n, (n < length arr - 1)%nat ->
             draw_val (rnd n) = draw_val (rnd' n)) ->
  shuffle rnd arr = shuffle rnd' arr
  /\ ((length arr <= 1)%nat -> shuffle rnd arr = arr).
Proof.
  intros H. split.
  - apply shuffle_loop_reads_draws. intros n Hn. apply H. lia.
  - intros Hlen. unfold shuffle.
    replace (length arr - 1)%nat with 0%nat by lia. reflexivity.
Qed.

Lemma shuffle_reads_draws_witness :
  shuffle noRandom [paris; quito]
  = shuffle (fun n => match n with O => zeroDraw | S _ => halfDraw end)
      [paris; quito]
  /\ ((length [paris; quito] <= 1)%nat ->
      shuffle noRandom [paris; quito] = [paris; quito]).
Proof.
  apply (shuffle_reads_draws noRandom
           (fun n => match n with O => zeroDraw | S _ => halfDraw end)
           [paris; quito]).
  intros n Hn. simpl in Hn. destruct n; [reflexivity | lia].
Defined.

(** ** The invariant of the page *)

(** A click on the start button whose call runs to its end at once is a
    press, the fetch and the resumption in a row. *)
Lemma startGame_resume_loadDataset (fetched : option (list Image))
    (rnd : nat -> Draw) (s : State) :
  startGame fetched rnd s = startGame_resume (loadDataset fetched rnd s).
Proof. reflexivity. Qed.

Lemma reachable_initial (startDisabled nextDisabled : bool) :
  reachable (initial startDisabled nextDisabled).
Proof. exists 0%nat, 0%nat. apply reachablePage_initial. Qed.

Lemma reachable_step (e : Event) (s : State) :
  reachable s -> reachable (step e s).
Proof.
  intros (f & l & H). exists f, l.
  destruct e as [fetched rnd | latlng |].
  - unfold step, dispatch. destruct (startBtn_disabled s) eqn:Hbtn.
    + exact H.
    + pose proof (reachablePage_step StartPressed _ H) as H1.
      unfold pageStep in H1. cbn [vars fetching loaded] in H1.
      rewrite Hbtn in H1.
      pose proof (reachablePage_step (FetchSettled fetched rnd) _ H1) as H2.
      unfold pageStep in H2. cbn [vars fetching loaded] in H2.
      pose proof (reachablePage_step StartResumed _ H2) as H3.
      unfold pageStep in H3. cbn [vars fetching loaded] in H3.
      rewrite startGame_resume_loadDataset. exact H3.
  - apply (reachablePage_step (MapPressed latlng) _ H).
  - apply (reachablePage_step NextPressed _ H).
Qed.

Lemma pageInvariant_initial (startDisabled nextDisabled : bool) :
  pageInvariant (initial startDisabled nextDisabled).
Proof.
  unfold pageInvariant, idleFacts. cbn.
  split; [reflexivity |]. split; [left; reflexivity |].
  split; [discriminate |]. intros _ total rest H. discriminate H.
Qed.

(** Assigning [images] keeps the invariant. *)
Lemma pageInvariant_loadDataset (fetched : option (list Image))
    (rnd : nat -> Draw) (s : State) :
  pageInvariant s -> pageInvariant (loadDataset fetched rnd s).
Proof. intros H. exact H. Qed.

Lemma pageInvariant_alertNoImages (s : State) :
  pageInvariant s -> pageInvariant (alertNoImages s).
Proof.
  intros (Hrt & Hcases & Hnext & Hidle).
  split; [exact Hrt |]. split; [exact Hcases |]. split; [exact Hnext |].
  intros _ total rest H. cbn in H. discriminate H.
Qed.

Lemma pageInvariant_endGame (s : State) :
  roundsTotal s = 5%Z -> scoreEl s = totalScore s ->
  pageInvariant (endGame s).
Proof.
  intros Hrt Hscore.
  split; [exact Hrt |]. split; [left; reflexivity |].
  split; [cbn; discriminate |].
  intros _ total rest H. cbn in H. injection H as <- _.
  split; [reflexivity |].
  unfold gameOverPage. cbn. repeat split. exact Hscore.
Qed.

Lemma pageInvariant_proceedNextRound (s : State) :
  roundsTotal s = 5%Z -> (0 <= roundNum s)%Z ->
  startBtn_disabled s = true -> scoreEl s = totalScore s ->
  pageInvariant (after (proceedNextRound s)).
Proof.
  intros Hrt Hr Hstart Hscore.
  destruct (Z_lt_le_dec (roundsTotal s) (roundNum s + 1)) as [Hlast | Hmore];
    [rewrite proceedNextRound_ends by (left; exact Hlast);
     apply pageInvariant_endGame; assumption |].
  destruct (Z_lt_le_dec (Z.of_nat (length (images s))) (roundNum s + 1))
    as [Hout | Hin];
    [rewrite proceedNextRound_ends by (right; exact Hout);
     apply pageInvariant_endGame; assumption |].
  destruct (proceedNextRound_begins s Hr Hmore Hin) as (imageObj & _ & ->).
  cbn [after].
  split; [exact Hrt |]. split.
  - right. unfold roundFacts. cbn.
    split; [lia |]. split; [reflexivity |]. split; [exact Hstart |].
    split; [reflexivity |]. split; [reflexivity | exact Hscore].
  - split; [cbn; discriminate |]. cbn. intros H. lia.
Qed.

Lemma pageInvariant_onMapClick (latlng : L.LatLng) (s : State) :
  pageInvariant s -> pageInvariant (after (onMapClick latlng s)).
Proof.
  intros Hinv. pose proof Hinv as (Hrt & Hcases & Hnext & Hidle).
  unfold onMapClick.
  destruct (Z.eqb_spec (roundNum s) 0) as [Hr | Hr]; [exact Hinv |].
  destruct (hasGuessed s) eqn:Hg; [exact Hinv |].
  destruct Hcases as [H | (Hrange & Hidx & Hstart & Hbtn & Hrel & Hscore)];
    [contradiction |].
  destruct (array_get _ _) as [actual |]; cbn [after].
  - split; [exact Hrt |]. split.
    + right. unfold roundFacts. cbn.
      split; [exact Hrange |]. split; [exact Hidx |].
      split; [exact Hstart |]. split; [reflexivity |].
      split; [exact Hrel | reflexivity].
    + split; [intros _ _; exact Hr |]. cbn. intros H. contradiction.
  - split; [exact Hrt |]. split.
    + right.
      exact (conj Hrange (conj Hidx (conj Hstart (conj Hbtn
               (conj Hrel Hscore))))).
    + split; [intros _ _; exact Hr |]. cbn. intros H. contradiction.
Qed.

Lemma pageInvariant_nextBtn_click (s : State) :
  pageInvariant s -> pageInvariant (step NextClick s).
Proof.
  intros Hinv. pose proof Hinv as (Hrt & Hcases & Hnext & Hidle).
  unfold step, dispatch, nextBtn_click.
  destruct (nextBtn_disabled s) eqn:Hbtn; [exact Hinv |].
  destruct (hasGuessed s) eqn:Hg; cbn [negb]; [| exact Hinv].
  destruct Hcases as [H | (Hrange & _ & Hstart & _ & _ & Hscore)];
    [exfalso; apply (Hnext eq_refl eq_refl), H |].
  destruct (roundNum s >=? roundsTotal s)%Z.
  - apply pageInvariant_endGame; assumption.
  - apply pageInvariant_proceedNextRound; [assumption | lia | assumption ..].
Qed.

Lemma pageInvariant_startGame_resume (s : State) :
  pageInvariant s -> pageInvariant (after (startGame_resume s)).
Proof.
  intros Hinv. pose proof Hinv as (Hrt & _). unfold startGame_resume.
  destruct (_ =? 0)%Z.
  - apply pageInvariant_alertNoImages, Hinv.
  - apply pageInvariant_proceedNextRound;
      [exact Hrt | cbn; lia | reflexivity | reflexivity].
Qed.

Lemma pageInvariant_pageStep (e : PageEvent) (p : Page) :
  pageInvariant (vars p) -> pageInvariant (vars (pageStep e p)).
Proof.
  intros Hinv. destruct e as [| fetched rnd | | latlng |]; unfold pageStep.
  - destruct (startBtn_disabled (vars p)); exact Hinv.
  - destruct (fetching p); [exact Hinv |].
    apply pageInvariant_loadDataset, Hinv.
  - destruct (loaded p); [exact Hinv |].
    apply pageInvariant_startGame_resume, Hinv.
  - apply pageInvariant_onMapClick, Hinv.
  - apply pageInvariant_nextBtn_click, Hinv.
Qed.

Lemma reachablePage_pageInvariant (p : Page) :
  reachablePage p -> pageInvariant (vars p).
Proof.
  induction 1 as [startDisabled nextDisabled | e p _ IH].
  - apply pageInvariant_initial.
  - apply pageInvariant_pageStep, IH.
Qed.

Lemma reachable_pageInvariant (s : State) : reachable s -> pageInvariant s.
Proof.
  intros (f & l & H). apply (reachablePage_pageInvariant _ H).
Qed.

Lemma reachable_sampleRound : reachable sampleRound.
Proof. apply reachable_step, reachable_initial. Qed.

Lemma reachable_sampleGuessed : reachable sampleGuessed.
Proof. apply reachable_step, reachable_sampleRound. Qed.

Lemma reachable_sampleOver : reachable sampleOver.
Proof. apply reachable_step, reachable_sampleGuessed. Qed.

Lemma reachablePage_pageRun (es : list PageEvent) :
  forall p, reachablePage p -> reachablePage (pageRun es p).
Proof.
  induction es as [| e es IH]; intros p Hp; [exact Hp |].
  apply (IH (pageStep e p)), reachablePage_step, Hp.
Qed.

Lemma reachablePage_firstStarted : reachablePage firstStarted.
Proof. apply reachablePage_pageRun, reachablePage_initial. Qed.

Lemma reachablePage_overlappingStarts (second : option (list Image)) :
  reachablePage (overlappingStarts second).
Proof. apply reachablePage_pageRun, reachablePage_firstStarted. Qed.

(** After the first call has gone on, the page is in round 1 of a game on
    the one image, and the other call is still suspended. *)
Lemma firstStarted_sampleRound :
  vars firstStarted = sampleRound
  /\ fetching firstStarted = 1%nat /\ loaded firstStarted = 0%nat.
Proof. repeat split; reflexivity. Qed.



(** ** Consequences of the invariant *)

(** C9: two clicks on the start button before the first fetch has settled.
    The first call begins round 1 on the image it fetched.  Then the fetch
    of the second call fails: the round is still round 1 and still awaits
    its guess, and [images[currentIndex]] is [undefined]; or it gives
    another image: the round number is still 1, and the active image is the
    other one. *)
Theorem second_start_replaces_active_location :
  (reachable (vars firstStarted)
   /\ roundNum (vars firstStarted) = 1%Z
   /\ hasGuessed (vars firstStarted) = false
   /\ array_get (images (vars firstStarted))
        (currentIndex (vars firstStarted)) = Some paris)
  /\ (reachable (vars (overlappingStarts None))
      /\ roundNum (vars (overlappingStarts None)) = 1%Z
      /\ hasGuessed (vars (overlappingStarts None)) = false
      /\ currentIndex (vars (overlappingStarts None)) = 0%Z
      /\ alerts (vars (overlappingStarts None)) = [NoImagesFound]
      /\ array_get (images (vars (overlappingStarts None)))
           (currentIndex (vars (overlappingStarts None))) = None)
  /\ (reachable (vars (overlappingStarts (Some [quito])))
      /\ roundNum (vars (overlappingStarts (Some [quito]))) = 1%Z
      /\ hasGuessed (vars (overlappingStarts (Some [quito]))) = false
      /\ alerts (vars (overlappingStarts (Some [quito]))) = []
      /\ array_get (images (vars (overlappingStarts (Some [quito]))))
           (currentIndex (vars (overlappingStarts (Some [quito]))))
         = Some quito).
Proof.
  split; [| split].
  - split; [| repeat split; reflexivity].
    exists 1%nat, 0%nat. exact reachablePage_firstStarted.
  - split; [| repeat split; reflexivity].
    exists 0%nat, 0%nat. exact (reachablePage_overlappingStarts None).
  - split; [| repeat split; reflexivity].
    exists 0%nat, 0%nat.
    exact (reachablePage_overlappingStarts (Some [quito])).
Qed.

(** C10: after two clicks on the start button, a first fetch that gives one
    image and a second fetch that fails, the page is in round 1 without a
    guess, [currentIndex] is 0 and [images] is empty: the index is not below
    [images.length], and a click on the map throws. *)
Theorem guess_after_failed_second_start_throws :
  reachable (vars (overlappingStarts None))
  /\ awaitingGuess (vars (overlappingStarts None))
  /\ currentIndex (vars (overlappingStarts None)) = 0%Z
  /\ Z.of_nat (length (images (vars (overlappingStarts None)))) = 0%Z
  /\ (forall latlng,
        is_normal (onMapClick latlng (vars (overlappingStarts None)))
        = false)
  /\ (forall latlng,
        is_normal (dispatch (MapClick latlng) (vars (overlappingStarts None)))
        = false).
Proof.
  split.
  - exists 0%nat, 0%nat. exact (reachablePage_overlappingStarts None).
  - split; [split; [discriminate | reflexivity] |].
    split; [reflexivity |]. split; [reflexivity |].
    split; intros latlng; reflexivity.
Qed.


(** X11: while a round is on, the start button is disabled, and the next
    button is enabled exactly when the round has its guess. *)
Theorem buttons_in_round (s : State) :
  reachable s -> roundNum s <> 0%Z ->
  startBtn_disabled s = true
  /\ nextBtn_disabled s = negb (hasGuessed s).
Proof.
  intros Hreach Hr.
  destruct (reachable_pageInvariant s Hreach) as (_ & Hcases & _).
  destruct Hcases as [H | (_ & _ & Hstart & Hnext & _)]; [contradiction |].
  split; [exact Hstart | exact Hnext].
Qed.

Lemma buttons_in_round_witness :
  startBtn_disabled sampleGuessed = true
  /\ nextBtn_disabled sampleGuessed = negb (hasGuessed sampleGuessed).
Proof.
  apply (buttons_in_round sampleGuessed).
  - apply reachable_sampleGuessed.
  - discriminate.
Defined.

(** X14: while no round is on, a click on the map and a click on the next
    button change nothing: only the start button acts. *)
Theorem idle_page_ignores_map_and_next (s : State) :
  reachable s -> roundNum s = 0%Z ->
  (forall latlng, step (MapClick latlng) s = s)
  /\ step NextClick s = s.
Proof.
  intros Hreach Hr.
  destruct (reachable_pageInvariant s Hreach) as (_ & _ & Hnext & _).
  split.
  - intros latlng. unfold step, dispatch.
    rewrite onMapClick_not_started by exact Hr. reflexivity.
  - unfold step, dispatch, nextBtn_click.
    destruct (nextBtn_disabled s) eqn:Hbtn; [reflexivity |].
    destruct (hasGuessed s) eqn:Hg; [| reflexivity].
    exfalso. apply (Hnext eq_refl eq_refl), Hr.
Qed.

Lemma idle_page_ignores_map_and_next_witness :
  (forall latlng, step (MapClick latlng) sampleOver = sampleOver)
  /\ step NextClick sampleOver = sampleOver.
Proof.
  apply (idle_page_ignores_map_and_next sampleOver).
  - apply reachable_sampleOver.
  - reflexivity.
Defined.

(** X16: while no round is on and the last alert is that of the end of a
    game, the total it gave is the score kept and displayed, the start
    button is enabled and the next button disabled, the round display is 0,
    and the scene, the hint and the name of the location are cleared. *)
Theorem game_over_page (s : State) (total : Z) (rest : list Alert) :
  reachable s -> roundNum s = 0%Z -> alerts s = GameOver total :: rest ->
  total = totalScore s /\ gameOverPage s.
Proof.
  intros Hreach Hr Halert.
  destruct (reachable_pageInvariant s Hreach) as (_ & _ & _ & Hidle).
  apply (Hidle Hr total rest Halert).
Qed.

Lemma game_over_page_witness :
  totalScore sampleGuessed = totalScore sampleOver /\ gameOverPage sampleOver.
Proof.
  apply (game_over_page sampleOver (totalScore sampleGuessed) []).
  - apply reachable_sampleOver.
  - reflexivity.
  - reflexivity.
Defined.

(** X17: no event changes [roundsTotal], and a click on the map or on the
    next button never changes [images]: the dataset is replaced by a start
    click only. *)
Theorem events_keep_dataset (e : Event) (s : State) :
  roundsTotal (step e s) = roundsTotal s
  /\ (isStart e = false -> images (step e s) = images s).
Proof.
  destruct e as [fetched rnd | latlng |]; unfold step, dispatch.
  - split; [| discriminate].
    destruct (startBtn_disabled s); [reflexivity |].
    unfold startGame. destruct (_ =? 0)%Z; [reflexivity |].
    destruct (proceedNextRound_frame
                (resetGame (loadDataset fetched rnd s))) as (_ & _ & ->).
    reflexivity.
  - destruct (onMapClick_frame latlng s) as (Hi & _ & _ & Hrt).
    split; [exact Hrt | intros _; exact Hi].
  - destruct (nextBtn_disabled s); [split; reflexivity |].
    unfold nextBtn_click. destruct (hasGuessed s); cbn; [| split; reflexivity].
    destruct (roundNum s >=? roundsTotal s)%Z; [split; reflexivity |].
    destruct (proceedNextRound_frame s) as (_ & Hi & Hrt).
    split; [exact Hrt | intros _; exact Hi].
Qed.

(** X19: whatever starts overlap, the round number stays between 0 and
    [roundsTotal], which is 5, and while a round is on [currentIndex] is the
    round number less one, and the page displays the round number and the
    score. *)
Theorem round_number_in_range (s : State) :
  reachable s ->
  roundsTotal s = 5%Z
  /\ (0 <= roundNum s <= roundsTotal s)%Z
  /\ (roundNum s <> 0%Z ->
      currentIndex s = (roundNum s - 1)%Z
      /\ roundEl s = roundNum s
      /\ scoreEl s = totalScore s).
Proof.
  intros Hreach.
  destruct (reachable_pageInvariant s Hreach) as (Hrt & Hcases & _).
  split; [exact Hrt |].
  destruct Hcases as [H | (Hrange & Hidx & _ & _ & Hrel & Hscore)].
  - split; [lia | intros Hr; contradiction].
  - split; [lia | intros _; auto].
Qed.

Lemma round_number_in_range_witness :
  roundsTotal sampleGuessed = 5%Z
  /\ (0 <= roundNum sampleGuessed <= roundsTotal sampleGuessed)%Z
  /\ (roundNum sampleGuessed <> 0%Z ->
      currentIndex sampleGuessed = (roundNum sampleGuessed - 1)%Z
      /\ roundEl sampleGuessed = roundNum sampleGuessed
      /\ scoreEl sampleGuessed = totalScore sampleGuessed).
Proof.
  apply (round_number_in_range sampleGuessed).
  apply reachable_sampleGuessed.
Defined.


